(** * Brute-force set packing (community/aqua/optimization/set_packing.ipynb)

    A shallow embedding of the notebook's [brute_force] cell and of the
    Python / NumPy primitives it calls, followed by the properties of the
    exhaustive search. *)

From Stdlib Require Import ZArith List String Ascii Bool Lia Permutation.
Import ListNotations.
Local Open Scope Z_scope.

(** ** Python values: exceptions, results, numbers *)

Inductive exn : Type :=
| ValueError.

Inductive result (A : Type) : Type :=
| Ok (a : A)
| Raise (e : exn).

Arguments Ok {A} a.
Arguments Raise {A} e.

Definition bind_result {A B : Type} (r : result A) (k : A -> result B) : result B :=
  match r with
  | Ok a => k a
  | Raise e => Raise e
  end.

Notation "'let*' x ':=' e 'in' k" := (bind_result e (fun x => k))
  (at level 10, x name, e at level 100, k at level 200).

(** [[f(x) for x in xs]] where [f] may raise: the first exception aborts
    the comprehension. *)
Fixpoint comprehension {A B : Type} (f : A -> result B) (xs : list A) : result (list B) :=
  match xs with
  | [] => Ok []
  | x :: xs' =>
      let* y := f x in
      let* ys := comprehension f xs' in
      Ok (y :: ys)
  end.

(** The values [max_v] takes: the float [-np.inf] it starts from, or the
    Python int returned by [np.count_nonzero]. *)
Inductive number : Type :=
| NegInf
| Int (z : Z).

(** Python's [c > m] for an int [c] against [max_v]. *)
Definition int_gt (c : Z) (m : number) : bool :=
  match m with
  | NegInf => true
  | Int z => z <? c
  end.

(** The order on [number], [-inf] below every int. *)
Definition number_le (a b : number) : Prop :=
  match a, b with
  | NegInf, _ => True
  | Int _, NegInf => False
  | Int x, Int y => x <= y
  end.

(** ** Python built-ins used by [np.binary_repr] and [bitfield] *)

Module Py.

Definition len (s : string) : Z := Z.of_nat (String.length s).

Fixpoint str_repeat (s : string) (k : nat) : string :=
  match k with
  | O => EmptyString
  | S k' => (s ++ str_repeat s k')%string
  end.

(** [s * k]: the empty string when [k <= 0]. *)
Definition str_mul (s : string) (k : Z) : string := str_repeat s (Z.to_nat k).

(** [s[k:]] for [k >= 0]. *)
Fixpoint slice_from (k : nat) (s : string) : string :=
  match k, s with
  | O, _ => s
  | S _, EmptyString => EmptyString
  | S k', String _ s' => slice_from k' s'
  end.

(** Binary digits of a positive number, most significant first, in front
    of [acc]. *)
Fixpoint bin_pos (p : positive) (acc : string) : string :=
  match p with
  | xH => String "1" acc
  | xO q => bin_pos q (String "0" acc)
  | xI q => bin_pos q (String "1" acc)
  end.

(** [bin(n)]. *)
Definition bin (n : Z) : string :=
  match n with
  | Z0 => "0b0"
  | Zpos p => ("0b" ++ bin_pos p "")%string
  | Zneg p => ("-0b" ++ bin_pos p "")%string
  end.

(** [s.zfill(width)]: zeros go after a leading sign. *)
Definition zfill (s : string) (width : Z) : string :=
  let pad := str_mul "0" (width - len s) in
  match s with
  | String c r =>
      if (Ascii.eqb c "+" || Ascii.eqb c "-")%bool
      then String c (pad ++ r)
      else (pad ++ s)%string
  | EmptyString => pad
  end.

(** [int(c)] for a one-character string: a decimal digit or [ValueError]. *)
Definition int_of_char (c : ascii) : result Z :=
  let k := Z.of_nat (nat_of_ascii c) in
  if (48 <=? k) && (k <=? 57) then Ok (k - 48) else Raise ValueError.

End Py.

(** ** NumPy *)

Module np.

(** What [binary_repr] does when [width] is too small for the number:
    the releases that run on the notebook's Python 3.6 kernel issue a
    [DeprecationWarning] and return the wider string ([Warns]); NumPy 2
    raises [ValueError] ([Raises]). *)
Inductive insufficient_width : Type :=
| Warns
| Raises.

Definition check_width (mode : insufficient_width) (width : option Z) (binwidth : Z)
  : result unit :=
  match width with
  | None => Ok tt
  | Some w =>
      if w <? binwidth
      then match mode with Warns => Ok tt | Raises => Raise ValueError end
      else Ok tt
  end.

(** [width or 1]. *)
Definition width_or_1 (width : option Z) : Z :=
  match width with
  | None => 1
  | Some w => if w =? 0 then 1 else w
  end.

(** [np.binary_repr(num, width)]. *)
Definition binary_repr (mode : insufficient_width) (num : Z) (width : option Z)
  : result string :=
  if num =? 0 then Ok (Py.str_mul "0" (width_or_1 width))
  else if 0 <? num then
    let binary := Py.slice_from 2 (Py.bin num) in
    let binwidth := Py.len binary in
    let outwidth := match width with
                    | None => binwidth
                    | Some w => Z.max binwidth w
                    end in
    let* _ := check_width mode width binwidth in
    Ok (Py.zfill binary outwidth)
  else
    match width with
    | None => Ok ("-" ++ Py.slice_from 2 (Py.bin (- num)))%string
    | Some w =>
        let poswidth := Py.len (Py.slice_from 2 (Py.bin (- num))) in
        let poswidth := if 2 ^ (poswidth - 1) =? - num then poswidth - 1 else poswidth in
        let twocomp := 2 ^ (poswidth + 1) + num in
        let binary := Py.slice_from 2 (Py.bin twocomp) in
        let binwidth := Py.len binary in
        let outwidth := Z.max binwidth w in
        let* _ := check_width mode width binwidth in
        Ok (Py.str_mul "1" (outwidth - binwidth) ++ binary)%string
    end.

(** [np.count_nonzero] on a list of ints. *)
Definition count_nonzero (v : list Z) : Z :=
  Z.of_nat (List.length (filter (fun d => negb (d =? 0)) v)).

End np.

(** ** The notebook *)

(** The global names the brute-force cells read and assign:
    [list_of_subsets] is bound by the first cell from the JSON file,
    [size] and [oracle] by the two cells that call [brute_force]. *)
Record notebook : Type := {
  list_of_subsets : list (list Z);
  size : option number;
  oracle : option number
}.

(** A cell or function body: it runs on the globals, returns or raises,
    and leaves the globals as it made them. *)
Definition cell (A : Type) : Type := notebook -> result A * notebook.

Definition ret {A : Type} (a : A) : cell A := fun g => (Ok a, g).

Definition bind {A B : Type} (c : cell A) (k : A -> cell B) : cell B :=
  fun g =>
    match c g with
    | (Ok a, g') => k a g'
    | (Raise e, g') => (Raise e, g')
    end.

Notation "x <- c ;; k" := (bind c (fun x => k))
  (at level 61, c at next level, right associativity).

(** Evaluating a pure expression that may raise. *)
Definition eval {A : Type} (r : result A) : cell A := fun g => (r, g).

(** Reading the global [list_of_subsets]. *)
Definition read_list_of_subsets : cell (list (list Z)) :=
  fun g => (Ok (list_of_subsets g), g).

Definition assign_size (v : number) : cell unit :=
  fun g => (Ok tt, {| list_of_subsets := list_of_subsets g;
                      size := Some v;
                      oracle := oracle g |}).

Definition assign_oracle (v : number) : cell unit :=
  fun g => (Ok tt, {| list_of_subsets := list_of_subsets g;
                      size := size g;
                      oracle := Some v |}).

(** [range(n)]. *)
Definition range (n : Z) : list Z := map Z.of_nat (seq 0 (Z.to_nat n)).

(** [for x in xs: body], the loop carrying the local it updates. *)
Fixpoint for_each {A S : Type} (xs : list A) (body : A -> S -> cell S) (s : S) : cell S :=
  match xs with
  | [] => ret s
  | x :: xs' => s' <- body x s ;; for_each xs' body s'
  end.

Section BruteForce.

(** The NumPy release the kernel loads, and
    [qiskit_aqua.translators.ising.setpacking.check_disjoint], which the
    notebook imports. *)
Variable mode : np.insufficient_width.
Variable check_disjoint : list Z -> list (list Z) -> bool.

(** The nested function [bitfield(n, L)]. *)
Definition bitfield (n L : Z) : result (list Z) :=
  let* result := np.binary_repr mode n (Some L) in
  comprehension Py.int_of_char (list_ascii_of_string result).

(** One pass of the loop body for candidate [i], with [max_v] carried. *)
Definition brute_force_body (L : Z) (i : Z) (max_v : number) : cell number :=
  cur <- eval (bitfield i L) ;;
  subsets <- read_list_of_subsets ;;
  let cur_v := check_disjoint cur subsets in
  if cur_v then
    if int_gt (np.count_nonzero cur) max_v
    then ret (Int (np.count_nonzero cur))
    else ret max_v
  else ret max_v.

(** [brute_force()]. *)
Definition brute_force : cell number :=
  subsets <- read_list_of_subsets ;;
  let L := Z.of_nat (List.length subsets) in
  let max := 2 ^ L in
  let max_v := NegInf in
  for_each (range max) (brute_force_body L) max_v.

(** The two cells that call it: [size = brute_force()] and
    [oracle = brute_force()]. *)
Definition cell_size : cell unit :=
  v <- brute_force ;; assign_size v.

Definition cell_oracle : cell unit :=
  v <- brute_force ;; assign_oracle v.

End BruteForce.

(** ** [setpacking.check_disjoint] *)

Module setpacking.

(** [set(a) & set(b)] is empty. *)
Definition disjoint (a b : list Z) : bool :=
  forallb (fun x => negb (existsb (Z.eqb x) b)) a.

(** The subsets whose digit in the selection vector is 1, in order. *)
Fixpoint selected (sol : list Z) (subsets : list (list Z)) : list (list Z) :=
  match sol, subsets with
  | d :: sol', s :: subsets' =>
      if d =? 1 then s :: selected sol' subsets' else selected sol' subsets'
  | _, _ => []
  end.

Fixpoint pairwise_disjoint (l : list (list Z)) : bool :=
  match l with
  | [] => true
  | s :: l' => forallb (disjoint s) l' && pairwise_disjoint l'
  end.

(** Modelled from the spec: [check_disjoint] is a function of the
    imported qiskit_aqua library, absent from the notebook. It returns true
    iff, for every pair of subsets both marked selected, their intersection
    is empty; the selection vector has one digit per subset. *)
Definition check_disjoint (sol : list Z) (subsets : list (list Z)) : bool :=
  pairwise_disjoint (selected sol subsets).

End setpacking.

(** ** Specification vocabulary *)

(** A selection vector for [L] subsets: [L] digits, each 0 or 1. *)
Definition binary (v : list Z) : Prop := Forall (fun d => d = 0 \/ d = 1) v.

Definition selection_vector (L : nat) (v : list Z) : Prop :=
  List.length v = L /\ binary v.

(** The number a digit sequence denotes, most significant digit first. *)
Fixpoint of_bits (v : list Z) : Z :=
  match v with
  | [] => 0
  | d :: r => d * 2 ^ Z.of_nat (List.length r) + of_bits r
  end.

(** Binary digits of a positive number in front of [acc], as ints. *)
Fixpoint pos_bits (p : positive) (acc : list Z) : list Z :=
  match p with
  | xH => 1 :: acc
  | xO q => pos_bits q (0 :: acc)
  | xI q => pos_bits q (1 :: acc)
  end.

(** The natural binary representation of [n >= 0]: no leading zero,
    except for the single digit of 0. *)
Definition natural_bits (n : Z) : list Z :=
  match n with
  | Zpos p => pos_bits p []
  | _ => [0]
  end.

(** The number of 1-bits of a selection vector. *)
Definition ones (v : list Z) : Z := Z.of_nat (count_occ Z.eq_dec v 1).

Definition digit_char (d : Z) : ascii := if d =? 0 then "0"%char else "1"%char.

(** The notebook's input, as the first cell prints it. *)
Definition sample_setpacking : list (list Z) := [[4; 5]; [4]; [5]].

(** ** Strings and digits *)

Lemma chars_app (a b : string) :
  list_ascii_of_string (a ++ b) = list_ascii_of_string a ++ list_ascii_of_string b.
Proof.
  induction a as [|c a IH]; simpl; [reflexivity|]. now rewrite IH.
Qed.

Lemma chars_str_repeat (d : Z) (k : nat) :
  list_ascii_of_string (Py.str_repeat (String (digit_char d) "") k)
  = map digit_char (repeat d k).
Proof.
  induction k as [|k IH]; simpl; [reflexivity|]. now rewrite IH.
Qed.

Lemma length_chars (s : string) :
  List.length (list_ascii_of_string s) = String.length s.
Proof.
  induction s as [|c s IH]; simpl; [reflexivity|]. now rewrite IH.
Qed.

Lemma chars_bin_pos (p : positive) : forall (acc : string) (accl : list Z),
  list_ascii_of_string acc = map digit_char accl ->
  list_ascii_of_string (Py.bin_pos p acc) = map digit_char (pos_bits p accl).
Proof.
  induction p as [q IH|q IH|]; intros acc accl H; simpl.
  - apply IH. simpl. now rewrite H.
  - apply IH. simpl. now rewrite H.
  - now rewrite H.
Qed.

Lemma bin_pos_head (p : positive) : forall acc,
  exists r, Py.bin_pos p acc = String "1" r.
Proof.
  induction p as [q IH|q IH|]; intros acc; simpl; eauto.
Qed.

Lemma binary_pos_bits (p : positive) : forall acc,
  binary acc -> binary (pos_bits p acc).
Proof.
  unfold binary.
  induction p as [q IH|q IH|]; intros acc H; simpl;
    [apply IH| apply IH| ]; constructor; auto.
Qed.

Lemma binary_repeat_0 (k : nat) : binary (repeat 0 k).
Proof.
  unfold binary. induction k; simpl; constructor; auto.
Qed.

Lemma binary_app (a b : list Z) : binary a -> binary b -> binary (a ++ b).
Proof.
  unfold binary. intros Ha Hb. apply Forall_app. now split.
Qed.

Lemma int_of_digit_char (d : Z) :
  d = 0 \/ d = 1 -> Py.int_of_char (digit_char d) = Ok d.
Proof.
  intros [-> | ->]; reflexivity.
Qed.

Lemma comprehension_digits (v : list Z) :
  binary v -> comprehension Py.int_of_char (map digit_char v) = Ok v.
Proof.
  unfold binary.
  induction 1 as [|d v Hd Hv IH]; simpl; [reflexivity|].
  rewrite (int_of_digit_char d Hd). simpl. rewrite IH. reflexivity.
Qed.

(** ** Size and value of the natural representation *)

Lemma length_pos_bits (p : positive) : forall acc,
  List.length (pos_bits p acc) = (Pos.size_nat p + List.length acc)%nat.
Proof.
  induction p as [q IH|q IH|]; intros acc; simpl;
    try rewrite IH; simpl; lia.
Qed.

Lemma of_bits_app (a b : list Z) :
  of_bits (a ++ b) = of_bits a * 2 ^ Z.of_nat (List.length b) + of_bits b.
Proof.
  induction a as [|d a IH]; simpl; [lia|].
  rewrite IH, length_app, Nat2Z.inj_add, Z.pow_add_r by lia. ring.
Qed.

Lemma of_bits_pos_bits (p : positive) : forall acc,
  of_bits (pos_bits p acc) = Zpos p * 2 ^ Z.of_nat (List.length acc) + of_bits acc.
Proof.
  induction p as [q IH|q IH|]; intros acc; simpl pos_bits.
  - rewrite IH. cbn [of_bits List.length].
    rewrite Nat2Z.inj_succ, Z.pow_succ_r by lia.
    change (Z.pos q~1) with (2 * Z.pos q + 1). ring.
  - rewrite IH. cbn [of_bits List.length].
    rewrite Nat2Z.inj_succ, Z.pow_succ_r by lia.
    change (Z.pos q~0) with (2 * Z.pos q). ring.
  - simpl. lia.
Qed.

Lemma of_bits_repeat_0 (k : nat) : of_bits (repeat 0 k) = 0.
Proof.
  induction k as [|k IH]; simpl; [reflexivity|]. rewrite IH. lia.
Qed.

Lemma pos_size_bounds (p : positive) :
  2 ^ Z.of_nat (Pos.size_nat p) <= 2 * Zpos p < 2 * 2 ^ Z.of_nat (Pos.size_nat p).
Proof.
  induction p as [q IH|q IH|]; simpl Pos.size_nat.
  - rewrite Nat2Z.inj_succ, Z.pow_succ_r by lia. lia.
  - rewrite Nat2Z.inj_succ, Z.pow_succ_r by lia. lia.
  - simpl. lia.
Qed.

Lemma of_bits_bound (v : list Z) :
  binary v -> 0 <= of_bits v < 2 ^ Z.of_nat (List.length v).
Proof.
  unfold binary.
  induction 1 as [|d v Hd Hv IH]; simpl of_bits; simpl List.length.
  - simpl. lia.
  - rewrite Nat2Z.inj_succ, Z.pow_succ_r by lia.
    destruct Hd as [-> | ->]; lia.
Qed.

Lemma of_bits_inj (v : list Z) : forall w,
  binary v -> binary w -> List.length v = List.length w ->
  of_bits v = of_bits w -> v = w.
Proof.
  unfold binary.
  induction v as [|d v IH]; intros [|e w] Hv Hw Hlen Heq; simpl in Hlen;
    try discriminate; [reflexivity|].
  inversion Hv as [|? ? Hd Hv']; inversion Hw as [|? ? He Hw']; subst.
  injection Hlen as Hlen.
  simpl in Heq. rewrite Hlen in Heq.
  pose proof (of_bits_bound v Hv') as Bv.
  pose proof (of_bits_bound w Hw') as Bw.
  rewrite Hlen in Bv.
  assert (d = e /\ of_bits v = of_bits w) as [-> Hr].
  { destruct Hd as [-> | ->], He as [-> | ->]; lia. }
  f_equal. now apply IH.
Qed.

(** ** What [bitfield] returns *)

Lemma len_bin_pos (p : positive) :
  Py.len (Py.bin_pos p "") = Z.of_nat (Pos.size_nat p).
Proof.
  unfold Py.len. rewrite <- length_chars.
  rewrite (chars_bin_pos p ""%string []) by reflexivity.
  rewrite length_map, length_pos_bits. simpl. f_equal. lia.
Qed.

Lemma chars_zfill_bin_pos (p : positive) (w : Z) :
  list_ascii_of_string (Py.zfill (Py.bin_pos p "") w)
  = map digit_char
      (repeat 0 (Z.to_nat (w - Z.of_nat (Pos.size_nat p))) ++ pos_bits p []).
Proof.
  unfold Py.zfill. rewrite len_bin_pos.
  destruct (bin_pos_head p ""%string) as [r Hr].
  rewrite Hr. cbv beta iota.
  change (Ascii.eqb "1" "+" || Ascii.eqb "1" "-")%bool with false.
  cbv iota. rewrite <- Hr.
  rewrite chars_app. unfold Py.str_mul.
  change "0"%string with (String (digit_char 0) "").
  rewrite chars_str_repeat, (chars_bin_pos p ""%string []) by reflexivity.
  now rewrite map_app.
Qed.

Lemma binary_repr_pos (mode : np.insufficient_width) (p : positive) (L : Z) :
  np.binary_repr mode (Zpos p) (Some L)
  = let binary := Py.bin_pos p "" in
    let* _ := np.check_width mode (Some L) (Py.len binary) in
    Ok (Py.zfill binary (Z.max (Py.len binary) L)).
Proof. reflexivity. Qed.

Lemma bitfield_zero (mode : np.insufficient_width) (L : Z) :
  bitfield mode 0 L = Ok (repeat 0 (Z.to_nat (if L =? 0 then 1 else L))).
Proof.
  unfold bitfield, np.binary_repr. simpl (0 =? 0). cbv iota.
  unfold bind_result, np.width_or_1, Py.str_mul.
  change "0"%string with (String (digit_char 0) "").
  rewrite chars_str_repeat. apply comprehension_digits, binary_repeat_0.
Qed.

Lemma bitfield_pos_fits (mode : np.insufficient_width) (p : positive) (L : Z) :
  Z.of_nat (Pos.size_nat p) <= L ->
  bitfield mode (Zpos p) L
  = Ok (repeat 0 (Z.to_nat (L - Z.of_nat (Pos.size_nat p))) ++ pos_bits p []).
Proof.
  intros Hfit. unfold bitfield. rewrite binary_repr_pos. cbv zeta.
  rewrite len_bin_pos. unfold np.check_width.
  replace (L <? Z.of_nat (Pos.size_nat p)) with false by (symmetry; apply Z.ltb_ge; lia).
  unfold bind_result at 1 2.
  rewrite chars_zfill_bin_pos, Z.max_r by lia.
  apply comprehension_digits, binary_app.
  - apply binary_repeat_0.
  - apply binary_pos_bits. constructor.
Qed.

Lemma bitfield_pos_wide_warns (p : positive) (L : Z) :
  L < Z.of_nat (Pos.size_nat p) ->
  bitfield np.Warns (Zpos p) L = Ok (pos_bits p []).
Proof.
  intros Hwide. unfold bitfield. rewrite binary_repr_pos. cbv zeta.
  rewrite len_bin_pos. unfold np.check_width.
  replace (L <? Z.of_nat (Pos.size_nat p)) with true by (symmetry; apply Z.ltb_lt; lia).
  unfold bind_result at 1 2.
  rewrite chars_zfill_bin_pos, Z.max_l by lia.
  rewrite Z.sub_diag. simpl app.
  apply comprehension_digits, binary_pos_bits. constructor.
Qed.

Lemma bitfield_pos_wide_raises (p : positive) (L : Z) :
  L < Z.of_nat (Pos.size_nat p) ->
  bitfield np.Raises (Zpos p) L = Raise ValueError.
Proof.
  intros Hwide. unfold bitfield. rewrite binary_repr_pos. cbv zeta.
  rewrite len_bin_pos. unfold np.check_width.
  replace (L <? Z.of_nat (Pos.size_nat p)) with true by (symmetry; apply Z.ltb_lt; lia).
  reflexivity.
Qed.

(** A number below [2 ^ L] fits in [L] digits, and conversely. *)
Lemma pos_size_fits (p : positive) (L : Z) :
  0 <= L -> (Zpos p < 2 ^ L <-> Z.of_nat (Pos.size_nat p) <= L).
Proof.
  intros HL. pose proof (pos_size_bounds p) as [Hlo Hhi]. split; intros H.
  - destruct (Z_le_gt_dec (Z.of_nat (Pos.size_nat p)) L) as [|Hgt]; [assumption|].
    assert (2 ^ (L + 1) <= 2 ^ Z.of_nat (Pos.size_nat p))
      by (apply Z.pow_le_mono_r; lia).
    rewrite Z.pow_add_r in * by lia. lia.
  - assert (2 ^ Z.of_nat (Pos.size_nat p) <= 2 ^ L)
      by (apply Z.pow_le_mono_r; lia).
    lia.
Qed.

(** In range, [bitfield] returns the [L] digits of [n], zero-padded. *)
Lemma bitfield_in_range (mode : np.insufficient_width) (n L : Z) :
  1 <= L -> 0 <= n < 2 ^ L ->
  bitfield mode n L
  = Ok (repeat 0 (Z.to_nat L - List.length (natural_bits n)) ++ natural_bits n).
Proof.
  intros HL [Hn0 Hn]. destruct n as [|p|p]; [| |lia].
  - rewrite bitfield_zero.
    replace (L =? 0) with false by (symmetry; apply Z.eqb_neq; lia).
    f_equal. simpl natural_bits. simpl List.length.
    replace (Z.to_nat L) with (Z.to_nat L - 1 + 1)%nat at 1 by lia.
    now rewrite repeat_app.
  - apply pos_size_fits in Hn; [|lia].
    rewrite bitfield_pos_fits by assumption.
    simpl natural_bits. rewrite length_pos_bits. simpl List.length.
    replace (Z.to_nat L - (Pos.size_nat p + 0))%nat
      with (Z.to_nat (L - Z.of_nat (Pos.size_nat p))) by lia.
    reflexivity.
Qed.

Lemma bitfield_selection_vector (mode : np.insufficient_width) (n : Z) (L : nat) :
  (1 <= L)%nat -> 0 <= n < 2 ^ Z.of_nat L ->
  exists v, bitfield mode n (Z.of_nat L) = Ok v
            /\ selection_vector L v /\ of_bits v = n.
Proof.
  intros HL Hn. eexists. split; [apply bitfield_in_range; lia|].
  rewrite Nat2Z.id.
  assert (Hlen : (List.length (natural_bits n) <= L)%nat).
  { destruct n as [|p|p]; simpl; [lia| |lia].
    rewrite length_pos_bits. simpl.
    destruct Hn as [_ Hn]. apply pos_size_fits in Hn; lia. }
  assert (Hbin : binary (natural_bits n)).
  { destruct n as [|p|p]; simpl; try (repeat constructor; auto; fail).
    apply binary_pos_bits. constructor. }
  repeat split.
  - rewrite length_app, repeat_length. lia.
  - apply binary_app; [apply binary_repeat_0 | assumption].
  - rewrite of_bits_app, of_bits_repeat_0.
    destruct n as [|p|p]; simpl natural_bits; [reflexivity| |lia].
    rewrite of_bits_pos_bits. simpl. lia.
Qed.

(** Every selection vector is the [bitfield] of exactly the number it
    denotes. *)
Lemma bitfield_of_bits (mode : np.insufficient_width) (L : nat) (v : list Z) :
  (1 <= L)%nat -> selection_vector L v ->
  0 <= of_bits v < 2 ^ Z.of_nat L /\ bitfield mode (of_bits v) (Z.of_nat L) = Ok v.
Proof.
  intros HL [Hlen Hbin].
  assert (Hr : 0 <= of_bits v < 2 ^ Z.of_nat L)
    by (rewrite <- Hlen; now apply of_bits_bound).
  split; [assumption|].
  destruct (bitfield_selection_vector mode (of_bits v) L HL Hr)
    as (w & Hw & [Hwl Hwb] & Hval).
  rewrite Hw. f_equal. apply of_bits_inj; auto. congruence.
Qed.

(** ** The order on [max_v] *)

Lemma number_le_refl (a : number) : number_le a a.
Proof. destruct a; simpl; [exact I | lia]. Qed.

Lemma number_le_trans (a b c : number) :
  number_le a b -> number_le b c -> number_le a c.
Proof. destruct a, b, c; simpl; try tauto; lia. Qed.

Lemma int_gt_true (c : Z) (m : number) :
  int_gt c m = true -> number_le m (Int c).
Proof. destruct m; simpl; [tauto|]. intros H. apply Z.ltb_lt in H. lia. Qed.

Lemma int_gt_false (c : Z) (m : number) :
  int_gt c m = false -> number_le (Int c) m.
Proof. destruct m; simpl; [discriminate|]. intros H. apply Z.ltb_ge in H. lia. Qed.

Lemma count_nonzero_ones (v : list Z) : binary v -> np.count_nonzero v = ones v.
Proof.
  unfold binary, np.count_nonzero, ones. intros H. f_equal.
  induction H as [|d v Hd Hv IH]; simpl; [reflexivity|].
  destruct Hd as [-> | ->]; simpl; now rewrite IH.
Qed.

Lemma in_range (n i : Z) : In i (range n) <-> 0 <= i < n.
Proof.
  unfold range. rewrite in_map_iff. split.
  - intros (k & <- & Hk). apply in_seq in Hk. lia.
  - intros H. exists (Z.to_nat i). split; [lia|]. apply in_seq. lia.
Qed.

(** ** The search loop *)

Section Search.

Variable mode : np.insufficient_width.
Variable check_disjoint : list Z -> list (list Z) -> bool.

Lemma brute_force_body_ok (L i : Z) (max_v : number) (g : notebook) (v : list Z) :
  bitfield mode i L = Ok v ->
  brute_force_body mode check_disjoint L i max_v g
  = (Ok (if check_disjoint v (list_of_subsets g)
         then if int_gt (np.count_nonzero v) max_v
              then Int (np.count_nonzero v) else max_v
         else max_v), g).
Proof.
  intros H. unfold brute_force_body, bind, eval, read_list_of_subsets, ret.
  rewrite H.
  destruct (check_disjoint v (list_of_subsets g)); [|reflexivity].
  destruct (int_gt (np.count_nonzero v) max_v); reflexivity.
Qed.

(** The loop returns, leaves the globals alone, and ends with the largest
    count among [max_v] and the accepted candidates. *)
Lemma for_each_body_spec (L : Z) (xs : list Z) :
  forall (max_v : number) (g : notebook),
  (forall i, In i xs -> exists v, bitfield mode i L = Ok v) ->
  exists r,
    for_each xs (brute_force_body mode check_disjoint L) max_v g = (Ok r, g)
    /\ number_le max_v r
    /\ (forall i v, In i xs -> bitfield mode i L = Ok v ->
        check_disjoint v (list_of_subsets g) = true ->
        number_le (Int (np.count_nonzero v)) r)
    /\ (r = max_v
        \/ exists i v, In i xs /\ bitfield mode i L = Ok v
                       /\ check_disjoint v (list_of_subsets g) = true
                       /\ r = Int (np.count_nonzero v)).
Proof.
  induction xs as [|x xs IH]; intros max_v g Hok.
  - exists max_v. simpl. unfold ret. repeat split.
    + apply number_le_refl.
    + intros i v [].
    + now left.
  - destruct (Hok x (or_introl eq_refl)) as [v Hv].
    simpl for_each. unfold bind at 1.
    rewrite (brute_force_body_ok L x max_v g v Hv).
    set (m := if check_disjoint v (list_of_subsets g)
              then if int_gt (np.count_nonzero v) max_v
                   then Int (np.count_nonzero v) else max_v
              else max_v).
    assert (Hm : number_le max_v m).
    { subst m. destruct (check_disjoint v (list_of_subsets g));
        [|apply number_le_refl].
      destruct (int_gt (np.count_nonzero v) max_v) eqn:E;
        [now apply int_gt_true | apply number_le_refl]. }
    assert (Hx : check_disjoint v (list_of_subsets g) = true ->
                 number_le (Int (np.count_nonzero v)) m).
    { intros Hc. subst m. rewrite Hc.
      destruct (int_gt (np.count_nonzero v) max_v) eqn:E;
        [apply number_le_refl | now apply int_gt_false]. }
    assert (Hfrom : m = max_v
                    \/ (check_disjoint v (list_of_subsets g) = true
                        /\ m = Int (np.count_nonzero v))).
    { subst m. destruct (check_disjoint v (list_of_subsets g)); [|now left].
      destruct (int_gt (np.count_nonzero v) max_v); [now right | now left]. }
    clearbody m.
    destruct (IH m g) as (r & Hrun & Hle & Hub & Hatt).
    { intros i Hi. apply Hok. now right. }
    exists r. split; [exact Hrun|]. split; [|split].
    + eapply number_le_trans; eassumption.
    + intros i w [<- | Hi] Hw Hc.
      * assert (w = v) as -> by congruence.
        eapply number_le_trans; [apply Hx, Hc | exact Hle].
      * eapply Hub; eassumption.
    + destruct Hatt as [-> | (i & w & Hi & Hw & Hc & ->)].
      * destruct Hfrom as [-> | [Hc ->]]; [now left|].
        right. exists x, v. repeat split; auto. now left.
      * right. exists i, w. repeat split; auto. now right.
Qed.

(** Every number the loop reaches has a [bitfield]. *)
Lemma bitfield_defined (L : nat) (i : Z) :
  0 <= i < 2 ^ Z.of_nat L -> exists v, bitfield mode i (Z.of_nat L) = Ok v.
Proof.
  intros Hi. destruct L as [|L'].
  - simpl in Hi. assert (i = 0) as -> by lia.
    rewrite bitfield_zero. eauto.
  - destruct (bitfield_selection_vector mode i (S L')) as (v & Hv & _);
      [lia | assumption | eauto].
Qed.

(** [brute_force] returns, does not touch the globals, and its value is
    the largest [np.count_nonzero] over the candidates that
    [check_disjoint] accepts ([-inf] when it accepts none). *)
Lemma brute_force_spec (g : notebook) :
  let L := Z.of_nat (List.length (list_of_subsets g)) in
  exists r,
    brute_force mode check_disjoint g = (Ok r, g)
    /\ (forall i v, 0 <= i < 2 ^ L -> bitfield mode i L = Ok v ->
        check_disjoint v (list_of_subsets g) = true ->
        number_le (Int (np.count_nonzero v)) r)
    /\ (r = NegInf
        \/ exists i v, 0 <= i < 2 ^ L /\ bitfield mode i L = Ok v
                       /\ check_disjoint v (list_of_subsets g) = true
                       /\ r = Int (np.count_nonzero v)).
Proof.
  intros L. unfold brute_force, bind at 1, read_list_of_subsets at 1.
  fold L.
  destruct (for_each_body_spec L (range (2 ^ L)) NegInf g)
    as (r & Hrun & _ & Hub & Hatt).
  { intros i Hi. apply in_range in Hi. now apply bitfield_defined. }
  exists r. split; [exact Hrun|]. split.
  - intros i v Hi. apply Hub. now apply in_range.
  - destruct Hatt as [-> | (i & v & Hi & Hrest)]; [now left|].
    right. exists i, v. apply in_range in Hi. now split.
Qed.

(** The globals other than [list_of_subsets] do not matter to the loop,
    and it leaves all of them alone, also when it raises. *)
Lemma brute_force_body_frame (L i : Z) (max_v : number) (g g' : notebook) :
  list_of_subsets g = list_of_subsets g' ->
  snd (brute_force_body mode check_disjoint L i max_v g) = g
  /\ fst (brute_force_body mode check_disjoint L i max_v g)
     = fst (brute_force_body mode check_disjoint L i max_v g').
Proof.
  intros E. unfold brute_force_body, bind, eval, read_list_of_subsets, ret.
  destruct (bitfield mode i L) as [cur|e]; [|split; reflexivity].
  rewrite E. destruct (check_disjoint cur (list_of_subsets g'));
    [|split; reflexivity].
  destruct (int_gt (np.count_nonzero cur) max_v); split; reflexivity.
Qed.

Lemma for_each_frame (L : Z) (xs : list Z) :
  forall (max_v : number) (g g' : notebook),
  list_of_subsets g = list_of_subsets g' ->
  snd (for_each xs (brute_force_body mode check_disjoint L) max_v g) = g
  /\ fst (for_each xs (brute_force_body mode check_disjoint L) max_v g)
     = fst (for_each xs (brute_force_body mode check_disjoint L) max_v g').
Proof.
  induction xs as [|x xs IH]; intros max_v g g' E; [split; reflexivity|].
  simpl for_each. unfold bind.
  destruct (brute_force_body_frame L x max_v g g' E) as [Hs Hf].
  destruct (brute_force_body_frame L x max_v g' g (eq_sym E)) as [Hs' _].
  destruct (brute_force_body mode check_disjoint L x max_v g) as [r1 g1].
  destruct (brute_force_body mode check_disjoint L x max_v g') as [r1' g1'].
  simpl in Hs, Hs', Hf. subst g1 g1' r1'.
  destruct r1 as [a|e]; [apply IH, E | split; reflexivity].
Qed.

Lemma brute_force_frame (g g' : notebook) :
  list_of_subsets g = list_of_subsets g' ->
  snd (brute_force mode check_disjoint g) = g
  /\ fst (brute_force mode check_disjoint g)
     = fst (brute_force mode check_disjoint g').
Proof.
  intros E. unfold brute_force.
  change (bind read_list_of_subsets ?k ?h) with (k (list_of_subsets h) h).
  cbv beta. rewrite <- E. now apply for_each_frame.
Qed.

End Search.

(** ** The search over selection vectors *)

Section SearchMaximum.

Variable mode : np.insufficient_width.
Variable check_disjoint : list Z -> list (list Z) -> bool.

(** With at least one subset, the candidates are exactly the selection
    vectors, so the result is the largest number of 1-bits among the
    accepted ones. *)
Lemma search_max (g : notebook) :
  (1 <= List.length (list_of_subsets g))%nat ->
  exists r,
    brute_force mode check_disjoint g = (Ok r, g)
    /\ (forall v, selection_vector (List.length (list_of_subsets g)) v ->
        check_disjoint v (list_of_subsets g) = true ->
        number_le (Int (ones v)) r)
    /\ (r = NegInf
        \/ exists v, selection_vector (List.length (list_of_subsets g)) v
                     /\ check_disjoint v (list_of_subsets g) = true
                     /\ r = Int (ones v)).
Proof.
  intros HL.
  destruct (brute_force_spec mode check_disjoint g) as (r & Hrun & Hub & Hatt).
  cbv zeta in Hub, Hatt.
  exists r. split; [exact Hrun|]. split.
  - intros v Hv Hc.
    destruct (bitfield_of_bits mode _ v HL Hv) as [Hr Hb].
    rewrite <- (count_nonzero_ones v) by apply Hv.
    eapply Hub; eassumption.
  - destruct Hatt as [-> | (i & v & Hi & Hb & Hc & ->)]; [now left|].
    right. exists v.
    destruct (bitfield_selection_vector mode i _ HL Hi) as (w & Hw & Hsel & _).
    assert (w = v) as -> by congruence.
    repeat split; try apply Hsel; auto.
    f_equal. apply count_nonzero_ones, Hsel.
Qed.

End SearchMaximum.

(** ** Facts about [setpacking.check_disjoint] *)

Lemma selected_zeros (L : nat) : forall subsets,
  setpacking.selected (repeat 0 L) subsets = [].
Proof.
  induction L as [|L IH]; intros [|s subsets]; simpl; auto.
Qed.

Lemma check_disjoint_zeros (L : nat) (subsets : list (list Z)) :
  setpacking.check_disjoint (repeat 0 L) subsets = true.
Proof.
  unfold setpacking.check_disjoint. now rewrite selected_zeros.
Qed.

Lemma ones_zeros (L : nat) : ones (repeat 0 L) = 0.
Proof.
  unfold ones. induction L as [|L IH]; simpl; [reflexivity | exact IH].
Qed.

Lemma selection_vector_zeros (L : nat) : selection_vector L (repeat 0 L).
Proof.
  split; [apply repeat_length | apply binary_repeat_0].
Qed.

Lemma disjoint_spec (a b : list Z) :
  setpacking.disjoint a b = true <-> (forall x, In x a -> ~ In x b).
Proof.
  unfold setpacking.disjoint. rewrite forallb_forall. split; intros H x Hx.
  - specialize (H x Hx). apply negb_true_iff in H. intros Hb.
    assert (existsb (Z.eqb x) b = true); [|congruence].
    apply existsb_exists. exists x. split; [assumption | apply Z.eqb_refl].
  - apply negb_true_iff. destruct (existsb (Z.eqb x) b) eqn:E; [|reflexivity].
    apply existsb_exists in E. destruct E as (y & Hy & Hxy).
    apply Z.eqb_eq in Hxy. subst y. now elim (H x Hx).
Qed.

Lemma disjoint_sym (a b : list Z) :
  setpacking.disjoint a b = setpacking.disjoint b a.
Proof.
  apply eq_iff_eq_true. rewrite !disjoint_spec. split; intros H x Hx Hy;
    exact (H x Hy Hx).
Qed.

Lemma forallb_perm {A : Type} (f : A -> bool) (l l' : list A) :
  Permutation l l' -> forallb f l = forallb f l'.
Proof.
  induction 1 as [|x l l' _ IH|x y l|l l' l'' _ IH1 _ IH2]; simpl.
  - reflexivity.
  - now rewrite IH.
  - destruct (f x), (f y); reflexivity.
  - congruence.
Qed.

Lemma pairwise_disjoint_perm (l l' : list (list Z)) :
  Permutation l l' ->
  setpacking.pairwise_disjoint l = setpacking.pairwise_disjoint l'.
Proof.
  induction 1 as [|x l l' Hp IH|x y l|l l' l'' _ IH1 _ IH2]; simpl.
  - reflexivity.
  - now rewrite IH, (forallb_perm _ _ _ Hp).
  - rewrite (disjoint_sym y x).
    destruct (setpacking.disjoint x y), (forallb (setpacking.disjoint x) l),
      (forallb (setpacking.disjoint y) l); reflexivity.
  - congruence.
Qed.

Lemma ones_cons (d : Z) (v : list Z) :
  ones (d :: v) = (if d =? 1 then 1 else 0) + ones v.
Proof.
  unfold ones. cbn [count_occ].
  destruct (Z.eq_dec d 1) as [-> | Hd].
  - rewrite Z.eqb_refl. lia.
  - apply Z.eqb_neq in Hd. rewrite Hd. lia.
Qed.

Lemma ones_app (v w : list Z) : ones (v ++ w) = ones v + ones w.
Proof.
  unfold ones. rewrite count_occ_app. lia.
Qed.

Lemma selected_app (v : list Z) : forall (subsets : list (list Z)) (d : Z) (s : list Z),
  List.length v = List.length subsets ->
  setpacking.selected (v ++ [d]) (subsets ++ [s])
  = setpacking.selected v subsets ++ (if d =? 1 then [s] else []).
Proof.
  induction v as [|e v IH]; intros [|t subsets] d s Hlen; simpl in Hlen;
    try discriminate.
  - simpl. destruct (d =? 1); reflexivity.
  - injection Hlen as Hlen. simpl. rewrite IH by assumption.
    destruct (e =? 1); reflexivity.
Qed.

(** A permutation of the subsets carries every selection vector to one
    that selects the same subsets. *)
Lemma selection_transport (l l' : list (list Z)) :
  Permutation l l' ->
  forall v, selection_vector (List.length l) v ->
  exists v', selection_vector (List.length l') v'
             /\ Permutation (setpacking.selected v l) (setpacking.selected v' l')
             /\ ones v' = ones v.
Proof.
  unfold selection_vector, binary.
  induction 1 as [|x l l' Hp IH|x y l|l l' l'' _ IH1 _ IH2]; intros v [Hlen Hbin].
  - exists v. repeat split; auto.
  - destruct v as [|d v]; [discriminate|].
    injection Hlen as Hlen. inversion Hbin as [|? ? Hd Hv]; subst.
    destruct (IH v (conj Hlen Hv)) as (v' & [Hlen' Hbin'] & Hsel & Hones).
    exists (d :: v'). repeat split.
    + simpl. now rewrite Hlen'.
    + now constructor.
    + simpl. destruct (d =? 1); [now constructor | assumption].
    + rewrite !ones_cons. lia.
  - destruct v as [|a [|b v]]; try discriminate.
    injection Hlen as Hlen.
    inversion Hbin as [|? ? Ha Hbin1]; subst.
    inversion Hbin1 as [|? ? Hb Hv]; subst.
    exists (b :: a :: v). repeat split.
    + simpl. now rewrite Hlen.
    + constructor; [|constructor]; assumption.
    + simpl. destruct (a =? 1), (b =? 1);
        solve [apply perm_swap | apply Permutation_refl].
    + rewrite !ones_cons. lia.
  - destruct (IH1 v (conj Hlen Hbin)) as (v1 & Hv1 & Hsel1 & Hones1).
    destruct (IH2 v1 Hv1) as (v2 & Hv2 & Hsel2 & Hones2).
    exists v2. repeat split; try apply Hv2.
    + eapply Permutation_trans; eassumption.
    + congruence.
Qed.

(** ** The maximum packing size *)

Lemma selection_vector_0 (v : list Z) : selection_vector 0 v -> v = [].
Proof.
  intros [Hlen _]. destruct v; [reflexivity | discriminate].
Qed.

(** With the library's [check_disjoint], [brute_force] returns an int:
    the largest number of selected subsets over the valid selections. *)
Lemma brute_force_packing (mode : np.insufficient_width) (g : notebook) :
  exists m,
    brute_force mode setpacking.check_disjoint g = (Ok (Int m), g)
    /\ (exists v, selection_vector (List.length (list_of_subsets g)) v
                  /\ setpacking.check_disjoint v (list_of_subsets g) = true
                  /\ ones v = m)
    /\ (forall v, selection_vector (List.length (list_of_subsets g)) v ->
        setpacking.check_disjoint v (list_of_subsets g) = true ->
        ones v <= m).
Proof.
  destruct (list_of_subsets g) as [|s l] eqn:E.
  - exists 0. split; [|split].
    + destruct g as [subsets sz orc]. simpl in E. subst subsets.
      destruct mode; reflexivity.
    + exists []. repeat split; constructor.
    + intros v Hv _. apply selection_vector_0 in Hv. subst v. reflexivity.
  - rewrite <- E.
    destruct (search_max mode setpacking.check_disjoint g)
      as (r & Hrun & Hub & Hatt); [rewrite E; simpl; lia|].
    pose proof (Hub _ (selection_vector_zeros _) (check_disjoint_zeros _ _)) as H0.
    destruct Hatt as [-> | (v & Hv & Hc & ->)]; [contradiction|].
    exists (ones v). split; [exact Hrun|]. split.
    + exists v. auto.
    + intros w Hw Hwc. exact (Hub w Hw Hwc).
Qed.

Lemma packing_permutation_le (mode : np.insufficient_width) (g g' : notebook) (m m' : Z) :
  Permutation (list_of_subsets g) (list_of_subsets g') ->
  brute_force mode setpacking.check_disjoint g = (Ok (Int m), g) ->
  brute_force mode setpacking.check_disjoint g' = (Ok (Int m'), g') ->
  m <= m'.
Proof.
  intros Hp Hg Hg'.
  destruct (brute_force_packing mode g) as (k & Hk & (v & Hv & Hc & Hones) & _).
  destruct (brute_force_packing mode g') as (k' & Hk' & _ & Hub).
  assert (Ek : k = m) by congruence. assert (Ek' : k' = m') by congruence.
  destruct (selection_transport _ _ Hp v Hv) as (v' & Hv' & Hsel & Hones').
  rewrite <- Ek, <- Ek', <- Hones, <- Hones'. apply Hub; [assumption|].
  unfold setpacking.check_disjoint in *.
  now rewrite <- (pairwise_disjoint_perm _ _ Hsel).
Qed.

Lemma packing_append_le (mode : np.insufficient_width) (g g' : notebook) (s : list Z) :
  list_of_subsets g' = list_of_subsets g ++ [s] ->
  exists m m',
    brute_force mode setpacking.check_disjoint g = (Ok (Int m), g)
    /\ brute_force mode setpacking.check_disjoint g' = (Ok (Int m'), g')
    /\ m <= m'.
Proof.
  intros Happ.
  destruct (brute_force_packing mode g) as (m & Hm & (v & [Hlen Hbin] & Hc & Hones) & _).
  destruct (brute_force_packing mode g') as (m' & Hm' & _ & Hub).
  exists m, m'. split; [exact Hm|]. split; [exact Hm'|].
  rewrite <- Hones.
  replace (ones v) with (ones (v ++ [0]))
    by (rewrite ones_app; change (ones [0]) with 0; lia).
  apply Hub.
  - split.
    + rewrite Happ, !length_app, Hlen. reflexivity.
    + apply binary_app; [assumption | repeat constructor; auto].
  - unfold setpacking.check_disjoint in *.
    rewrite Happ, selected_app by assumption.
    simpl. now rewrite app_nil_r.
Qed.

Lemma pos_bits_head (p : positive) : forall acc,
  exists r, pos_bits p acc = 1 :: r.
Proof.
  induction p as [q IH|q IH|]; intros acc; simpl; eauto.
Qed.

(** * The claims *)

(** C1. With [L >= 1] subsets, [brute_force] runs [n] over
    [0 .. 2^L - 1], takes [bitfield(n, L)] (each one a selection vector,
    and every selection vector is reached), asks [check_disjoint], and
    returns the largest number of 1-bits among the accepted selection
    vectors; the globals are as before. *)
Theorem brute_force_maximum
  (mode : np.insufficient_width) (check_disjoint : list Z -> list (list Z) -> bool)
  (g : notebook) :
  (1 <= List.length (list_of_subsets g))%nat ->
  exists r,
    brute_force mode check_disjoint g = (Ok r, g)
    /\ (forall n, 0 <= n < 2 ^ Z.of_nat (List.length (list_of_subsets g)) ->
        exists v, bitfield mode n (Z.of_nat (List.length (list_of_subsets g))) = Ok v
                  /\ selection_vector (List.length (list_of_subsets g)) v
                  /\ of_bits v = n)
    /\ (forall v, selection_vector (List.length (list_of_subsets g)) v ->
        exists n, 0 <= n < 2 ^ Z.of_nat (List.length (list_of_subsets g))
                  /\ bitfield mode n (Z.of_nat (List.length (list_of_subsets g))) = Ok v)
    /\ (forall v, selection_vector (List.length (list_of_subsets g)) v ->
        check_disjoint v (list_of_subsets g) = true ->
        number_le (Int (ones v)) r)
    /\ (r = NegInf
        \/ exists v, selection_vector (List.length (list_of_subsets g)) v
                     /\ check_disjoint v (list_of_subsets g) = true
                     /\ r = Int (ones v)).
Proof.
  intros HL.
  destruct (search_max mode check_disjoint g HL) as (r & Hrun & Hub & Hatt).
  exists r. split; [exact Hrun|]. split; [|split; [|split]].
  - intros n Hn. now apply bitfield_selection_vector.
  - intros v Hv. exists (of_bits v). now apply bitfield_of_bits.
  - exact Hub.
  - exact Hatt.
Qed.

Lemma brute_force_maximum_witness :
  (1 <= 3)%nat
  /\ exists r,
      brute_force np.Warns setpacking.check_disjoint
        {| list_of_subsets := sample_setpacking; size := None; oracle := None |}
      = (Ok r, {| list_of_subsets := sample_setpacking; size := None; oracle := None |})
      /\ (forall v, selection_vector 3 v ->
          setpacking.check_disjoint v sample_setpacking = true ->
          number_le (Int (ones v)) r).
Proof.
  split; [lia|].
  destruct (brute_force_maximum np.Warns setpacking.check_disjoint
              {| list_of_subsets := sample_setpacking; size := None; oracle := None |})
    as (r & Hrun & _ & _ & Hub & _).
  - simpl. lia.
  - exists r. split; [exact Hrun | exact Hub].
Defined.

(** C2. On the notebook's input [[4,5],[4],[5]]: [check_disjoint] accepts
    the selection [0,1,1]; it rejects every selection that takes position 0
    together with position 1 or position 2; and [brute_force] returns 2. *)
Theorem sample_setpacking_size_2 :
  setpacking.check_disjoint [0; 1; 1] sample_setpacking = true
  /\ (forall b c : Z, b = 1 \/ c = 1 ->
      setpacking.check_disjoint [1; b; c] sample_setpacking = false)
  /\ (forall mode sz orc,
      brute_force mode setpacking.check_disjoint
        {| list_of_subsets := sample_setpacking; size := sz; oracle := orc |}
      = (Ok (Int 2),
         {| list_of_subsets := sample_setpacking; size := sz; oracle := orc |})).
Proof.
  split; [reflexivity|]. split.
  - intros b c [-> | ->]; unfold setpacking.check_disjoint, sample_setpacking.
    + cbn [setpacking.selected]. change (1 =? 1) with true. cbv iota.
      destruct (c =? 1); reflexivity.
    + cbn [setpacking.selected]. change (1 =? 1) with true. cbv iota.
      destruct (b =? 1); reflexivity.
  - intros mode sz orc. destruct mode; reflexivity.
Qed.

Lemma sample_setpacking_size_2_witness :
  (1 = 1 \/ 0 = 1)
  /\ setpacking.check_disjoint [1; 1; 0] sample_setpacking = false.
Proof.
  split; [left; reflexivity|].
  apply (proj1 (proj2 sample_setpacking_size_2) 1 0). left. reflexivity.
Defined.

(** C3. For [L >= 1] and [0 <= n < 2^L], [bitfield(n, L)] returns exactly
    [L] digits, each 0 or 1, denoting [n] most significant bit first: the
    natural binary representation of [n] with zeros added on the left up to
    length [L]. *)
Theorem bitfield_binary_representation
  (mode : np.insufficient_width) (n L : Z) :
  1 <= L -> 0 <= n < 2 ^ L ->
  exists v,
    bitfield mode n L = Ok v
    /\ Z.of_nat (List.length v) = L
    /\ binary v
    /\ of_bits v = n
    /\ v = repeat 0 (Z.to_nat L - List.length (natural_bits n)) ++ natural_bits n
    /\ of_bits (natural_bits n) = n
    /\ (0 < n -> hd 0 (natural_bits n) = 1).
Proof.
  intros HL Hn.
  destruct (bitfield_selection_vector mode n (Z.to_nat L)) as (v & Hv & [Hlen Hbin] & Hval);
    [lia | rewrite Z2Nat.id by lia; assumption |].
  rewrite Z2Nat.id in Hv by lia.
  exists v. split; [exact Hv|]. split; [lia|]. split; [exact Hbin|].
  split; [exact Hval|]. split; [|split].
  - rewrite (bitfield_in_range mode n L HL Hn) in Hv. congruence.
  - destruct n as [|p|p]; simpl; [reflexivity| |lia].
    rewrite of_bits_pos_bits. simpl. lia.
  - intros Hpos. destruct n as [|p|p]; try lia. simpl.
    destruct (pos_bits_head p []) as [r ->]. reflexivity.
Qed.

Lemma bitfield_binary_representation_witness :
  1 <= 4 /\ 0 <= 3 < 2 ^ 4
  /\ exists v, bitfield np.Warns 3 4 = Ok v /\ v = [0; 0; 1; 1].
Proof.
  split; [lia|]. split; [split; [lia | reflexivity]|].
  destruct (bitfield_binary_representation np.Warns 3 4) as (v & Hv & _ & _ & _ & Hpad & _).
  - lia.
  - split; [lia | reflexivity].
  - exists v. split; [exact Hv | exact Hpad].
Defined.

(** C4, as the code has it: [bitfield] checks nothing itself. For
    [n >= 2^L] ([L >= 0]) the outcome is [np.binary_repr]'s: the NumPy the
    notebook runs on warns and returns the natural binary representation of
    [n], more than [L] digits long; only NumPy 2 raises [ValueError]. *)
Theorem bitfield_insufficient_width (n L : Z) :
  0 <= L -> 2 ^ L <= n ->
  (bitfield np.Warns n L = Ok (natural_bits n)
   /\ L < Z.of_nat (List.length (natural_bits n))
   /\ of_bits (natural_bits n) = n)
  /\ bitfield np.Raises n L = Raise ValueError.
Proof.
  intros HL Hn.
  assert (0 < 2 ^ L) by (apply Z.pow_pos_nonneg; lia).
  destruct n as [|p|p]; try lia.
  assert (Hwide : L < Z.of_nat (Pos.size_nat p)).
  { destruct (Z_lt_le_dec L (Z.of_nat (Pos.size_nat p))) as [|Hfit]; [assumption|].
    apply (pos_size_fits p L HL) in Hfit. lia. }
  simpl natural_bits. repeat split.
  - now apply bitfield_pos_wide_warns.
  - rewrite length_pos_bits. simpl. lia.
  - rewrite of_bits_pos_bits. simpl. lia.
  - now apply bitfield_pos_wide_raises.
Qed.

Lemma bitfield_insufficient_width_witness :
  0 <= 2 /\ 2 ^ 2 <= 4 /\ bitfield np.Warns 4 2 = Ok [1; 0; 0].
Proof.
  split; [lia|]. split; [discriminate|].
  apply (proj1 (proj1 (bitfield_insufficient_width 4 2 ltac:(lia) ltac:(discriminate)))).
Defined.

(** C4 as stated fails: 4 needs three bits, and [bitfield(4, 2)] on the
    notebook's NumPy returns [1, 0, 0] instead of raising. *)
Lemma bitfield_4_2_returns :
  2 ^ 2 <= 4
  /\ bitfield np.Warns 4 2 = Ok [1; 0; 0]
  /\ ~ (exists e, bitfield np.Warns 4 2 = Raise e).
Proof.
  split; [discriminate|]. split; [reflexivity|].
  intros [e He]. discriminate He.
Qed.

(** C5. With [L >= 1] subsets, [check_disjoint] accepts the all-zero
    selection vector, whose packing size is 0, and so [brute_force] returns
    an int that is at least 0. *)
Theorem empty_selection_valid (mode : np.insufficient_width) (g : notebook) :
  (1 <= List.length (list_of_subsets g))%nat ->
  setpacking.check_disjoint
    (repeat 0 (List.length (list_of_subsets g))) (list_of_subsets g) = true
  /\ np.count_nonzero (repeat 0 (List.length (list_of_subsets g))) = 0
  /\ exists m,
      brute_force mode setpacking.check_disjoint g = (Ok (Int m), g) /\ 0 <= m.
Proof.
  intros HL. split; [apply check_disjoint_zeros|]. split.
  - rewrite count_nonzero_ones by apply binary_repeat_0. apply ones_zeros.
  - destruct (brute_force_packing mode g) as (m & Hm & _ & Hub).
    exists m. split; [exact Hm|].
    rewrite <- (ones_zeros (List.length (list_of_subsets g))).
    apply Hub; [apply selection_vector_zeros | apply check_disjoint_zeros].
Qed.

Lemma empty_selection_valid_witness :
  (1 <= 3)%nat
  /\ setpacking.check_disjoint [0; 0; 0] sample_setpacking = true.
Proof.
  split; [lia|].
  apply (proj1 (empty_selection_valid np.Warns
                  {| list_of_subsets := sample_setpacking; size := None; oracle := None |}
                  ltac:(simpl; lia))).
Defined.

(** C6. Appending a subset that is disjoint from every subset of the
    collection does not decrease what [brute_force] returns. *)
Theorem brute_force_append_disjoint
  (mode : np.insufficient_width) (g g' : notebook) (s : list Z) :
  list_of_subsets g' = list_of_subsets g ++ [s] ->
  Forall (fun t => setpacking.disjoint s t = true) (list_of_subsets g) ->
  exists m m',
    brute_force mode setpacking.check_disjoint g = (Ok (Int m), g)
    /\ brute_force mode setpacking.check_disjoint g' = (Ok (Int m'), g')
    /\ m <= m'.
Proof.
  intros Happ _. now apply (packing_append_le mode g g' s).
Qed.

Lemma brute_force_append_disjoint_witness :
  exists m m',
    brute_force np.Warns setpacking.check_disjoint
      {| list_of_subsets := [[4; 5]; [4]]; size := None; oracle := None |}
    = (Ok (Int m), {| list_of_subsets := [[4; 5]; [4]]; size := None; oracle := None |})
    /\ brute_force np.Warns setpacking.check_disjoint
         {| list_of_subsets := [[4; 5]; [4]; [6]]; size := None; oracle := None |}
       = (Ok (Int m'),
          {| list_of_subsets := [[4; 5]; [4]; [6]]; size := None; oracle := None |})
    /\ m <= m'.
Proof.
  apply (brute_force_append_disjoint np.Warns
           {| list_of_subsets := [[4; 5]; [4]]; size := None; oracle := None |}
           {| list_of_subsets := [[4; 5]; [4]; [6]]; size := None; oracle := None |}
           [6]).
  - reflexivity.
  - repeat constructor.
Defined.

(** C7. [brute_force] returns the same maximum packing size on a
    permutation of the subset collection. *)
Theorem brute_force_permutation
  (mode : np.insufficient_width) (g g' : notebook) :
  Permutation (list_of_subsets g) (list_of_subsets g') ->
  exists m,
    brute_force mode setpacking.check_disjoint g = (Ok (Int m), g)
    /\ brute_force mode setpacking.check_disjoint g' = (Ok (Int m), g').
Proof.
  intros Hp.
  destruct (brute_force_packing mode g) as (m & Hm & _).
  destruct (brute_force_packing mode g') as (m' & Hm' & _).
  assert (m <= m') by (eapply packing_permutation_le; eassumption).
  assert (m' <= m)
    by (eapply packing_permutation_le; [apply Permutation_sym| |]; eassumption).
  exists m. split; [exact Hm|]. replace m with m' by lia. exact Hm'.
Qed.

Lemma brute_force_permutation_witness :
  exists m,
    brute_force np.Warns setpacking.check_disjoint
      {| list_of_subsets := [[4; 5]; [4]; [5]]; size := None; oracle := None |}
    = (Ok (Int m), {| list_of_subsets := [[4; 5]; [4]; [5]]; size := None; oracle := None |})
    /\ brute_force np.Warns setpacking.check_disjoint
         {| list_of_subsets := [[4]; [4; 5]; [5]]; size := None; oracle := None |}
       = (Ok (Int m),
          {| list_of_subsets := [[4]; [4; 5]; [5]]; size := None; oracle := None |}).
Proof.
  apply (brute_force_permutation np.Warns
           {| list_of_subsets := [[4; 5]; [4]; [5]]; size := None; oracle := None |}
           {| list_of_subsets := [[4]; [4; 5]; [5]]; size := None; oracle := None |}).
  apply perm_swap.
Defined.

(** C8. [bitfield(0, 0)] is the one-element list [0], not the empty list:
    its length is 1, not [L = 0]. *)
Theorem bitfield_0_0 (mode : np.insufficient_width) :
  bitfield mode 0 0 = Ok [0]
  /\ List.length [0] = 1%nat
  /\ Z.of_nat (List.length [0]) <> 0.
Proof.
  split; [destruct mode; reflexivity|]. split; [reflexivity | discriminate].
Qed.

(** C9. If [check_disjoint] rejects every one of the [2^L] candidates,
    [brute_force] returns [-inf], the value [max_v] starts from, and no
    int. *)
Theorem brute_force_none_accepted
  (mode : np.insufficient_width) (check_disjoint : list Z -> list (list Z) -> bool)
  (g : notebook) :
  (forall n v, 0 <= n < 2 ^ Z.of_nat (List.length (list_of_subsets g)) ->
     bitfield mode n (Z.of_nat (List.length (list_of_subsets g))) = Ok v ->
     check_disjoint v (list_of_subsets g) = false) ->
  brute_force mode check_disjoint g = (Ok NegInf, g)
  /\ forall m, brute_force mode check_disjoint g <> (Ok (Int m), g).
Proof.
  intros Hrej.
  destruct (brute_force_spec mode check_disjoint g) as (r & Hrun & _ & Hatt).
  cbv zeta in Hatt.
  assert (r = NegInf) as ->.
  { destruct Hatt as [-> | (i & v & Hi & Hb & Hc & _)]; [reflexivity|].
    rewrite (Hrej i v Hi Hb) in Hc. discriminate. }
  split; [exact Hrun|]. intros m. rewrite Hrun. discriminate.
Qed.

Lemma brute_force_none_accepted_witness :
  brute_force np.Warns (fun _ _ => false)
    {| list_of_subsets := sample_setpacking; size := None; oracle := None |}
  = (Ok NegInf, {| list_of_subsets := sample_setpacking; size := None; oracle := None |}).
Proof.
  apply (proj1 (brute_force_none_accepted np.Warns (fun _ _ => false)
                  {| list_of_subsets := sample_setpacking; size := None; oracle := None |}
                  (fun _ _ _ _ => eq_refl))).
Defined.

(** C10. [brute_force] leaves [list_of_subsets] as it found it, and the
    two calls of the notebook, [size = brute_force()] and then
    [oracle = brute_force()], get the same value. *)
Theorem brute_force_reads_only
  (mode : np.insufficient_width) (check_disjoint : list Z -> list (list Z) -> bool)
  (g : notebook) :
  exists r g1 g2,
    brute_force mode check_disjoint g = (Ok r, g)
    /\ cell_size mode check_disjoint g = (Ok tt, g1)
    /\ cell_oracle mode check_disjoint g1 = (Ok tt, g2)
    /\ list_of_subsets g1 = list_of_subsets g
    /\ list_of_subsets g2 = list_of_subsets g
    /\ size g2 = Some r
    /\ oracle g2 = Some r.
Proof.
  destruct (brute_force_spec mode check_disjoint g) as (r & Hrun & _).
  set (g1 := {| list_of_subsets := list_of_subsets g;
                size := Some r; oracle := oracle g |}).
  destruct (brute_force_spec mode check_disjoint g1) as (r1 & Hrun1 & _).
  assert (Hsame : r1 = r).
  { destruct (brute_force_frame mode check_disjoint g1 g eq_refl) as [_ F].
    rewrite Hrun1, Hrun in F. simpl in F. congruence. }
  subst r1.
  exists r, g1, {| list_of_subsets := list_of_subsets g1;
                   size := size g1; oracle := Some r |}.
  repeat split.
  - exact Hrun.
  - unfold cell_size, bind. rewrite Hrun. reflexivity.
  - unfold cell_oracle, bind. rewrite Hrun1. reflexivity.
Qed.

(** * Further properties of [bitfield] and of the search *)

Lemma number_le_antisym (a b : number) :
  number_le a b -> number_le b a -> a = b.
Proof. destruct a, b; simpl; try tauto; intros; f_equal; lia. Qed.

Lemma count_nonzero_bounds (v : list Z) :
  0 <= np.count_nonzero v <= Z.of_nat (List.length v).
Proof.
  unfold np.count_nonzero. split; [lia|].
  apply Nat2Z.inj_le, filter_length_le.
Qed.

(** The digit at position [i] of a digit sequence is the bit of its value
    at the mirrored position. *)
Lemma of_bits_testbit (v : list Z) :
  binary v ->
  forall i, (i < List.length v)%nat ->
  nth i v 0 = Z.b2z (Z.testbit (of_bits v) (Z.of_nat (List.length v - 1 - i))).
Proof.
  unfold binary.
  induction 1 as [|d v Hd Hv IH]; intros i Hi; simpl in Hi; [lia|].
  pose proof (of_bits_bound v Hv) as Hb.
  cbn [of_bits List.length].
  set (k := List.length v) in *.
  assert (Hk : 0 < 2 ^ Z.of_nat k) by (apply Z.pow_pos_nonneg; lia).
  rewrite Z.testbit_spec' by lia.
  destruct i as [|j].
  - replace (S k - 1 - 0)%nat with k by lia. cbn [nth].
    rewrite Z.add_comm, Z.div_add by lia.
    rewrite Z.div_small by lia.
    destruct Hd as [-> | ->]; reflexivity.
  - cbn [nth]. rewrite (IH j) by lia. fold k.
    rewrite Z.testbit_spec' by lia.
    replace (S k - 1 - S j)%nat with (k - 1 - j)%nat by lia.
    set (q := (k - 1 - j)%nat).
    assert (Hq : 0 < 2 ^ Z.of_nat q) by (apply Z.pow_pos_nonneg; lia).
    replace (2 ^ Z.of_nat k) with (2 * 2 ^ Z.of_nat (k - 1 - q) * 2 ^ Z.of_nat q).
    + rewrite Z.add_comm, Z.mul_assoc, Z.div_add by lia.
      replace (d * (2 * 2 ^ Z.of_nat (k - 1 - q)))
        with (d * 2 ^ Z.of_nat (k - 1 - q) * 2) by ring.
      now rewrite Z.mod_add by lia.
    + rewrite <- Z.pow_succ_r, <- Z.pow_add_r by lia. f_equal. lia.
Qed.

(** X1. On the empty collection the loop runs once, for the candidate
    [bitfield(0, 0) = [0]]: [brute_force] asks [check_disjoint] about
    [[0]] and the empty list, and returns 0 if it accepts and [-inf] if
    not. *)
Theorem brute_force_empty_collection
  (mode : np.insufficient_width) (check_disjoint : list Z -> list (list Z) -> bool)
  (g : notebook) :
  list_of_subsets g = [] ->
  brute_force mode check_disjoint g
  = (Ok (if check_disjoint [0] [] then Int 0 else NegInf), g).
Proof.
  intros E. unfold brute_force.
  change (bind read_list_of_subsets ?k ?h) with (k (list_of_subsets h) h).
  cbv beta. rewrite E.
  change (range (2 ^ Z.of_nat (List.length (@nil (list Z))))) with [0].
  cbn [for_each]. unfold bind at 1.
  rewrite (brute_force_body_ok mode check_disjoint _ 0 NegInf g [0])
    by (destruct mode; reflexivity).
  rewrite E. unfold ret.
  destruct (check_disjoint [0] []); reflexivity.
Qed.

Lemma brute_force_empty_collection_witness :
  brute_force np.Warns setpacking.check_disjoint
    {| list_of_subsets := []; size := None; oracle := None |}
  = (Ok (Int 0), {| list_of_subsets := []; size := None; oracle := None |}).
Proof.
  apply (brute_force_empty_collection np.Warns setpacking.check_disjoint
           {| list_of_subsets := []; size := None; oracle := None |} eq_refl).
Defined.

(** X2. For [L >= 1], [bitfield(., L)] is one-to-one from [0 .. 2^L - 1]
    onto the selection vectors of length [L]: two numbers with the same
    digits are equal, and every selection vector is the [bitfield] of the
    number it denotes. No candidate is examined twice and none is missed. *)
Theorem bitfield_bijection (mode : np.insufficient_width) (L : nat) :
  (1 <= L)%nat ->
  (forall n m, 0 <= n < 2 ^ Z.of_nat L -> 0 <= m < 2 ^ Z.of_nat L ->
     bitfield mode n (Z.of_nat L) = bitfield mode m (Z.of_nat L) -> n = m)
  /\ (forall v, selection_vector L v ->
        0 <= of_bits v < 2 ^ Z.of_nat L
        /\ bitfield mode (of_bits v) (Z.of_nat L) = Ok v).
Proof.
  intros HL. split.
  - intros n m Hn Hm E.
    destruct (bitfield_selection_vector mode n L HL Hn) as (v & Hv & _ & Hvn).
    destruct (bitfield_selection_vector mode m L HL Hm) as (w & Hw & _ & Hwm).
    assert (v = w) by congruence. congruence.
  - intros v Hv. now apply bitfield_of_bits.
Qed.

Lemma bitfield_bijection_witness :
  (1 <= 3)%nat /\ bitfield np.Warns (of_bits [0; 1; 1]) 3 = Ok [0; 1; 1].
Proof.
  split; [lia|].
  apply (proj2 (bitfield_bijection np.Warns 3 ltac:(lia)) [0; 1; 1]).
  split; [reflexivity|].
  unfold binary. repeat (apply Forall_cons; [auto|]). apply Forall_nil.
Defined.

(** X3. For [L >= 1] and [0 <= n < 2^L], digit [i] of [bitfield(n, L)] is
    bit [L - 1 - i] of [n]: subset [i] is selected in candidate [n] exactly
    when that bit is set. *)
Theorem bitfield_digit_testbit (mode : np.insufficient_width) (n : Z) (L : nat) :
  (1 <= L)%nat -> 0 <= n < 2 ^ Z.of_nat L ->
  exists v,
    bitfield mode n (Z.of_nat L) = Ok v
    /\ forall i, (i < L)%nat ->
         nth i v 0 = Z.b2z (Z.testbit n (Z.of_nat (L - 1 - i))).
Proof.
  intros HL Hn.
  destruct (bitfield_selection_vector mode n L HL Hn) as (v & Hv & [Hlen Hbin] & Hval).
  exists v. split; [exact Hv|]. intros i Hi.
  rewrite <- Hval, <- Hlen. apply of_bits_testbit; [assumption | lia].
Qed.

Lemma bitfield_digit_testbit_witness :
  (1 <= 3)%nat /\ 0 <= 6 < 2 ^ 3
  /\ exists v, bitfield np.Warns 6 3 = Ok v
               /\ nth 2 v 0 = Z.b2z (Z.testbit 6 0).
Proof.
  split; [lia|]. split; [split; [lia | reflexivity]|].
  destruct (bitfield_digit_testbit np.Warns 6 3) as (v & Hv & Hbit).
  - lia.
  - split; [lia | reflexivity].
  - exists v. split; [exact Hv|]. apply (Hbit 2%nat). lia.
Defined.

(** X4. On the notebook's NumPy, [bitfield(n, L)] returns for every
    [n >= 0] and [L >= 0]: digits 0/1 that denote [n], as many as the
    larger of [L] and the length of the natural representation of [n]. The
    result is never shorter than [L]. *)
Theorem bitfield_warns_length (n L : Z) :
  0 <= n -> 0 <= L ->
  exists v,
    bitfield np.Warns n L = Ok v
    /\ binary v
    /\ of_bits v = n
    /\ Z.of_nat (List.length v) = Z.max L (Z.of_nat (List.length (natural_bits n))).
Proof.
  intros Hn HL. destruct n as [|p|p]; [| |lia].
  - rewrite bitfield_zero. eexists. split; [reflexivity|].
    split; [apply binary_repeat_0|]. split; [apply of_bits_repeat_0|].
    rewrite repeat_length. simpl natural_bits. simpl List.length.
    destruct (Z.eqb_spec L 0); lia.
  - simpl natural_bits.
    destruct (Z_le_gt_dec (Z.of_nat (Pos.size_nat p)) L) as [Hfit|Hwide].
    + rewrite bitfield_pos_fits by assumption. eexists. split; [reflexivity|].
      split; [|split].
      * apply binary_app; [apply binary_repeat_0 | apply binary_pos_bits; constructor].
      * rewrite of_bits_app, of_bits_repeat_0, of_bits_pos_bits. simpl. lia.
      * rewrite length_app, repeat_length, length_pos_bits. simpl List.length. lia.
    + rewrite bitfield_pos_wide_warns by lia. eexists. split; [reflexivity|].
      split; [|split].
      * apply binary_pos_bits; constructor.
      * rewrite of_bits_pos_bits. simpl. lia.
      * rewrite length_pos_bits. simpl List.length. lia.
Qed.

Lemma bitfield_warns_length_witness :
  0 <= 5 /\ 0 <= 2
  /\ exists v, bitfield np.Warns 5 2 = Ok v /\ of_bits v = 5.
Proof.
  split; [lia|]. split; [lia|].
  destruct (bitfield_warns_length 5 2 ltac:(lia) ltac:(lia)) as (v & Hv & _ & Hval & _).
  exists v. split; [exact Hv | exact Hval].
Defined.

Lemma for_each_ext {A S : Type} (body body' : A -> S -> cell S) (xs : list A) :
  (forall x, In x xs -> forall s g, body x s g = body' x s g) ->
  forall s g, for_each xs body s g = for_each xs body' s g.
Proof.
  induction xs as [|x xs IH]; intros Hext s g; [reflexivity|].
  simpl. unfold bind. rewrite (Hext x (or_introl eq_refl)).
  destruct (body' x s g) as [[a|e] g1]; [|reflexivity].
  apply IH. intros y Hy. apply Hext. now right.
Qed.

Lemma bitfield_mode_irrelevant (L : nat) (i : Z) :
  0 <= i < 2 ^ Z.of_nat L ->
  bitfield np.Warns i (Z.of_nat L) = bitfield np.Raises i (Z.of_nat L).
Proof.
  intros Hi. destruct L as [|L'].
  - simpl in Hi. assert (i = 0) as -> by lia. now rewrite !bitfield_zero.
  - now rewrite !bitfield_in_range by lia.
Qed.

Lemma ones_le_length (v : list Z) : 0 <= ones v <= Z.of_nat (List.length v).
Proof.
  unfold ones. split; [lia|]. apply Nat2Z.inj_le, count_occ_bound.
Qed.

Lemma ones_repeat_1 (L : nat) : ones (repeat 1 L) = Z.of_nat L.
Proof.
  unfold ones. f_equal.
  induction L as [|L IH]; simpl; [reflexivity | now rewrite IH].
Qed.

Lemma selection_vector_ones (L : nat) : selection_vector L (repeat 1 L).
Proof.
  split; [apply repeat_length|].
  unfold binary. induction L; simpl; constructor; auto.
Qed.

(** X5. [brute_force] behaves the same on both NumPy behaviours: the loop
    only asks for numbers below [2^L], which never need more than [L]
    digits, so the insufficient-width path of [np.binary_repr] is never
    taken (also for the empty collection). *)
Theorem brute_force_numpy_independent
  (check_disjoint : list Z -> list (list Z) -> bool) (g : notebook) :
  brute_force np.Warns check_disjoint g = brute_force np.Raises check_disjoint g.
Proof.
  unfold brute_force.
  change (bind read_list_of_subsets ?k ?h) with (k (list_of_subsets h) h).
  cbv beta. apply for_each_ext.
  intros i Hi max_v h. apply in_range in Hi.
  unfold brute_force_body, bind, eval.
  now rewrite (bitfield_mode_irrelevant _ i Hi).
Qed.

(** X6. Whatever [check_disjoint] is, [brute_force] returns [-inf] or an
    int between 0 and the number of subsets. *)
Theorem brute_force_range
  (mode : np.insufficient_width) (check_disjoint : list Z -> list (list Z) -> bool)
  (g : notebook) :
  exists r,
    brute_force mode check_disjoint g = (Ok r, g)
    /\ (r = NegInf
        \/ exists m, r = Int m
                     /\ 0 <= m <= Z.of_nat (List.length (list_of_subsets g))).
Proof.
  destruct (brute_force_spec mode check_disjoint g) as (r & Hrun & _ & Hatt).
  cbv zeta in Hatt. exists r. split; [exact Hrun|].
  destruct Hatt as [-> | (i & v & Hi & Hb & _ & ->)]; [now left|].
  right. eexists. split; [reflexivity|].
  pose proof (count_nonzero_bounds v) as Hc.
  split; [lia|].
  destruct (list_of_subsets g) as [|s l] eqn:E.
  - simpl in Hi. assert (i = 0) as -> by lia.
    simpl List.length in Hb. rewrite bitfield_zero in Hb.
    injection Hb as <-. reflexivity.
  - destruct (bitfield_selection_vector mode i (List.length (s :: l)))
      as (w & Hw & [Hlen _] & _); [simpl; lia | assumption |].
    assert (w = v) as -> by congruence. lia.
Qed.

(** X7. With [L >= 1] subsets, if [check_disjoint] accepts the all-ones
    selection vector then [brute_force] returns [L]. *)
Theorem brute_force_all_selected
  (mode : np.insufficient_width) (check_disjoint : list Z -> list (list Z) -> bool)
  (g : notebook) :
  (1 <= List.length (list_of_subsets g))%nat ->
  check_disjoint (repeat 1 (List.length (list_of_subsets g))) (list_of_subsets g) = true ->
  brute_force mode check_disjoint g
  = (Ok (Int (Z.of_nat (List.length (list_of_subsets g)))), g).
Proof.
  intros HL Hall.
  destruct (search_max mode check_disjoint g HL) as (r & Hrun & Hub & Hatt).
  pose proof (Hub _ (selection_vector_ones _) Hall) as Hlow.
  rewrite ones_repeat_1 in Hlow.
  rewrite Hrun. do 2 f_equal.
  destruct Hatt as [-> | (v & [Hlen _] & _ & ->)]; [contradiction|].
  simpl in Hlow. pose proof (ones_le_length v) as Hle.
  f_equal. lia.
Qed.

Lemma brute_force_all_selected_witness :
  brute_force np.Warns setpacking.check_disjoint
    {| list_of_subsets := [[1; 2]; [3; 4]; [5; 6]]; size := None; oracle := None |}
  = (Ok (Int 3),
     {| list_of_subsets := [[1; 2]; [3; 4]; [5; 6]]; size := None; oracle := None |}).
Proof.
  apply (brute_force_all_selected np.Warns setpacking.check_disjoint
           {| list_of_subsets := [[1; 2]; [3; 4]; [5; 6]]; size := None; oracle := None |}).
  - simpl. lia.
  - reflexivity.
Defined.



(** X9. The order in which the candidates are visited does not matter:
    running the loop body over any permutation of [range(2**L)] ends with
    the value [brute_force] returns. *)
Theorem brute_force_any_order
  (mode : np.insufficient_width) (check_disjoint : list Z -> list (list Z) -> bool)
  (g : notebook) (xs : list Z) :
  Permutation (range (2 ^ Z.of_nat (List.length (list_of_subsets g)))) xs ->
  for_each xs
    (brute_force_body mode check_disjoint (Z.of_nat (List.length (list_of_subsets g))))
    NegInf g
  = brute_force mode check_disjoint g.
Proof.
  intros Hp.
  set (L := Z.of_nat (List.length (list_of_subsets g))) in *.
  assert (Hin : forall i, In i xs <-> 0 <= i < 2 ^ L).
  { intros i. rewrite <- in_range. split; apply Permutation_in;
      [apply Permutation_sym|]; assumption. }
  destruct (brute_force_spec mode check_disjoint g) as (r & Hrun & Hub & Hatt).
  cbv zeta in Hub, Hatt. fold L in Hub, Hatt.
  destruct (for_each_body_spec mode check_disjoint L xs NegInf g)
    as (r' & Hrun' & _ & Hub' & Hatt').
  { intros i Hi. apply Hin in Hi. now apply bitfield_defined. }
  rewrite Hrun, Hrun'. do 2 f_equal.
  apply number_le_antisym.
  - destruct Hatt' as [-> | (i & v & Hi & Hb & Hc & ->)]; [exact I|].
    apply (Hub i v); [now apply Hin | assumption | assumption].
  - destruct Hatt as [-> | (i & v & Hi & Hb & Hc & ->)]; [exact I|].
    apply (Hub' i v); [now apply Hin | assumption | assumption].
Qed.

Lemma brute_force_any_order_witness :
  for_each [7; 6; 5; 4; 3; 2; 1; 0]
    (brute_force_body np.Warns setpacking.check_disjoint 3) NegInf
    {| list_of_subsets := sample_setpacking; size := None; oracle := None |}
  = brute_force np.Warns setpacking.check_disjoint
      {| list_of_subsets := sample_setpacking; size := None; oracle := None |}.
Proof.
  apply (brute_force_any_order np.Warns setpacking.check_disjoint
           {| list_of_subsets := sample_setpacking; size := None; oracle := None |}
           [7; 6; 5; 4; 3; 2; 1; 0]).
  apply (Permutation_rev [0; 1; 2; 3; 4; 5; 6; 7]).
Defined.

(** ** The search with the library's [check_disjoint] *)

Lemma binary_single (d : Z) : d = 0 \/ d = 1 -> binary [d].
Proof. intros H. unfold binary. apply Forall_cons; [exact H | apply Forall_nil]. Qed.

Lemma selected_ones (subsets : list (list Z)) :
  setpacking.selected (repeat 1 (List.length subsets)) subsets = subsets.
Proof.
  induction subsets as [|s l IH]; simpl; [reflexivity | now rewrite IH].
Qed.

Lemma ones_full (v : list Z) :
  ones v = Z.of_nat (List.length v) -> v = repeat 1 (List.length v).
Proof.
  induction v as [|d v IH]; intros H; [reflexivity|].
  rewrite ones_cons in H. pose proof (ones_le_length v) as Hle.
  cbn [List.length] in H. rewrite Nat2Z.inj_succ in H.
  destruct (Z.eqb_spec d 1) as [-> | Hd]; [|lia].
  simpl. f_equal. apply IH. lia.
Qed.

Lemma selected_incl (v : list Z) : forall subsets t,
  In t (setpacking.selected v subsets) -> In t subsets.
Proof.
  induction v as [|d v IH]; intros [|s l] t H; simpl in H; try contradiction.
  destruct (d =? 1); [destruct H as [<- | H]|]; simpl; auto.
Qed.

Lemma pairwise_disjoint_snoc (a : list (list Z)) (s : list Z) :
  setpacking.pairwise_disjoint (a ++ [s])
  = setpacking.pairwise_disjoint a && forallb (fun t => setpacking.disjoint t s) a.
Proof.
  induction a as [|x a IH]; simpl; [reflexivity|].
  rewrite IH, forallb_app. simpl.
  destruct (forallb (setpacking.disjoint x) a), (setpacking.disjoint x s),
    (setpacking.pairwise_disjoint a); simpl; reflexivity.
Qed.

Lemma selection_vector_snoc (L : nat) (v' : list Z) :
  selection_vector (S L) v' ->
  exists v d, v' = v ++ [d] /\ selection_vector L v /\ (d = 0 \/ d = 1).
Proof.
  intros [Hlen Hbin].
  destruct (exists_last (l := v')) as (v & d & ->); [destruct v'; discriminate|].
  exists v, d. split; [reflexivity|].
  apply Forall_app in Hbin. destruct Hbin as [Hv Hd].
  rewrite length_app in Hlen. simpl in Hlen.
  repeat split; [lia | exact Hv | now inversion Hd].
Qed.

(** X10. With [check_disjoint] as the spec describes it, [brute_force]
    returns the number of subsets exactly when the subsets of the collection
    are pairwise disjoint. *)
Theorem brute_force_full_packing (mode : np.insufficient_width) (g : notebook) :
  brute_force mode setpacking.check_disjoint g
  = (Ok (Int (Z.of_nat (List.length (list_of_subsets g)))), g)
  <-> setpacking.pairwise_disjoint (list_of_subsets g) = true.
Proof.
  destruct (brute_force_packing mode g) as (m & Hm & (v & [Hlen Hbin] & Hc & Hones) & Hub).
  pose proof (ones_le_length v) as Hle.
  split.
  - intros H. rewrite Hm in H.
    assert (Hfull : ones v = Z.of_nat (List.length v)) by (rewrite Hlen; congruence).
    apply ones_full in Hfull. rewrite Hfull, Hlen in Hc.
    unfold setpacking.check_disjoint in Hc. now rewrite selected_ones in Hc.
  - intros Hpd. rewrite Hm. do 3 f_equal.
    assert (Hall : Z.of_nat (List.length (list_of_subsets g)) <= m).
    { rewrite <- ones_repeat_1. apply Hub; [apply selection_vector_ones|].
      unfold setpacking.check_disjoint. now rewrite selected_ones. }
    lia.
Qed.

(** X11. With [check_disjoint] as the spec describes it and at least one
    subset, [brute_force] returns at least 1 and at most the number of
    subsets: a single subset is always a valid packing. *)
Theorem brute_force_at_least_one (mode : np.insufficient_width) (g : notebook) :
  (1 <= List.length (list_of_subsets g))%nat ->
  exists m,
    brute_force mode setpacking.check_disjoint g = (Ok (Int m), g)
    /\ 1 <= m <= Z.of_nat (List.length (list_of_subsets g)).
Proof.
  intros HL.
  destruct (brute_force_packing mode g) as (m & Hm & (v & [Hlen _] & _ & Hones) & Hub).
  exists m. split; [exact Hm|]. split.
  - destruct (list_of_subsets g) as [|s l]; [simpl in HL; lia|].
    apply Z.le_trans with (ones (1 :: repeat 0 (List.length l))).
    + rewrite ones_cons, ones_zeros. reflexivity.
    + apply Hub.
      * split; [simpl; now rewrite repeat_length|].
        apply (binary_app [1]); [apply binary_single; auto | apply binary_repeat_0].
      * unfold setpacking.check_disjoint. simpl. now rewrite selected_zeros.
  - pose proof (ones_le_length v). lia.
Qed.

Lemma brute_force_at_least_one_witness :
  exists m,
    brute_force np.Warns setpacking.check_disjoint
      {| list_of_subsets := [[1]; [1]; [1]]; size := None; oracle := None |}
    = (Ok (Int m), {| list_of_subsets := [[1]; [1]; [1]]; size := None; oracle := None |})
    /\ 1 <= m <= 3.
Proof.
  apply (brute_force_at_least_one np.Warns
           {| list_of_subsets := [[1]; [1]; [1]]; size := None; oracle := None |}).
  simpl. lia.
Defined.

(** X12. With [check_disjoint] as the spec describes it, appending one
    subset raises what [brute_force] returns by at most 1, never lowers it,
    and raises it by exactly 1 when the new subset is disjoint from every
    subset of the collection. *)
Theorem brute_force_append_one
  (mode : np.insufficient_width) (g g' : notebook) (s : list Z) :
  list_of_subsets g' = list_of_subsets g ++ [s] ->
  exists m m',
    brute_force mode setpacking.check_disjoint g = (Ok (Int m), g)
    /\ brute_force mode setpacking.check_disjoint g' = (Ok (Int m'), g')
    /\ m <= m' <= m + 1
    /\ (Forall (fun t => setpacking.disjoint s t = true) (list_of_subsets g) ->
        m' = m + 1).
Proof.
  intros Happ.
  destruct (packing_append_le mode g g' s Happ) as (m & m' & Hm & Hm' & Hle).
  destruct (brute_force_packing mode g) as (k & Hk & (v & Hv & Hc & Hones) & Hub).
  destruct (brute_force_packing mode g') as (k' & Hk' & (w & Hw & Hwc & Hwones) & Hub').
  assert (Ek : k = m) by congruence. assert (Ek' : k' = m') by congruence.
  rewrite Ek in *. rewrite Ek' in *. clear Ek Ek' Hk Hk'.
  exists m, m'. split; [exact Hm|]. split; [exact Hm'|].
  assert (Hup : m' <= m + 1).
  { rewrite Happ, length_app, Nat.add_1_r in Hw.
    destruct (selection_vector_snoc _ w Hw) as (u & d & -> & Hu & Hd).
    unfold setpacking.check_disjoint in Hwc.
    rewrite Happ, selected_app in Hwc by apply Hu.
    assert (Hcu : setpacking.check_disjoint u (list_of_subsets g) = true).
    { unfold setpacking.check_disjoint.
      destruct (d =? 1).
      - rewrite pairwise_disjoint_snoc in Hwc.
        now apply andb_true_iff in Hwc.
      - now rewrite app_nil_r in Hwc. }
    pose proof (Hub u Hu Hcu) as Hule.
    rewrite <- Hwones, ones_app. pose proof (ones_le_length [d]) as Hd1.
    simpl List.length in Hd1. lia. }
  split; [lia|].
  intros Hdis.
  assert (m + 1 <= m'); [|lia].
  rewrite <- Hones.
  replace (ones v + 1) with (ones (v ++ [1]))
    by (rewrite ones_app; change (ones [1]) with 1; lia).
  destruct Hv as [Hlen Hbin].
  apply Hub'.
  - split.
    + rewrite Happ, !length_app, Hlen. reflexivity.
    + apply binary_app; [assumption | apply binary_single; auto].
  - unfold setpacking.check_disjoint in *.
    rewrite Happ, selected_app by assumption.
    change (1 =? 1) with true. cbv iota.
    rewrite pairwise_disjoint_snoc, Hc. simpl.
    apply forallb_forall. intros t Ht. apply selected_incl in Ht.
    rewrite disjoint_sym.
    rewrite Forall_forall in Hdis. now apply Hdis.
Qed.

Lemma brute_force_append_one_witness :
  exists m m',
    brute_force np.Warns setpacking.check_disjoint
      {| list_of_subsets := [[4; 5]; [4]]; size := None; oracle := None |}
    = (Ok (Int m), {| list_of_subsets := [[4; 5]; [4]]; size := None; oracle := None |})
    /\ brute_force np.Warns setpacking.check_disjoint
         {| list_of_subsets := [[4; 5]; [4]; [5]]; size := None; oracle := None |}
       = (Ok (Int m'),
          {| list_of_subsets := [[4; 5]; [4]; [5]]; size := None; oracle := None |})
    /\ m <= m' <= m + 1.
Proof.
  destruct (brute_force_append_one np.Warns
              {| list_of_subsets := [[4; 5]; [4]]; size := None; oracle := None |}
              {| list_of_subsets := [[4; 5]; [4]; [5]]; size := None; oracle := None |}
              [5] eq_refl)
    as (m & m' & Hm & Hm' & Hle & _).
  exists m, m'. split; [exact Hm|]. split; [exact Hm' | exact Hle].
Defined.

(** ** The calling cells *)


